(** * Exceptions of the elvish evaluator (package eval, exception.go)

    A shallow embedding of [eval/exception.go]: the [Exception] value, the
    [PipelineError] of a pipeline, the [Flow] control signals and the
    [ExternalCmdExit] decoding of a process wait status, followed by the
    properties the specification states about them.

    Conventions of the embedding:
    - a Go pointer [*T] is an [option T], [None] being the nil pointer;
    - a Go interface value is an [option] of a record of its methods,
      [None] being the nil interface;
    - a call that may panic or exhaust the goroutine stack returns an
      [outcome];
    - Go's [int] is a 64-bit two's complement integer carried by [Z], its
      wrap-around written with [wrap_int]; [uint32] is carried by [Z] and
      [uint] by [N];
    - an allocation whose size an [int] argument decides
      ([strings.Repeat]) is refused beyond the runtime's [maxAlloc] and
      beyond the memory the machine can hand out. *)

From Stdlib Require Import ZArith NArith String Ascii List Lia Bool DecimalString DecimalZ.
Import ListNotations.

#[local] Open Scope string_scope.
#[local] Open Scope Z_scope.

(** ** The Go runtime: outcomes of a call *)

(** How a call can fail to return. *)
Inductive crash : Set :=
| NilDereference       (* panic: invalid memory address or nil pointer dereference *)
| NegativeRepeatCount  (* panic: strings: negative Repeat count *)
| RepeatOverflow       (* panic: strings: Repeat count causes overflow *)
| LenOutOfRange        (* panic: runtime error: makeslice: len out of range *)
| OutOfMemory          (* fatal error: runtime: out of memory *)
| StackExhausted.      (* fatal error: stack overflow *)

Inductive outcome (A : Type) : Type :=
| Returns (a : A)
| Crashes (c : crash).

Arguments Returns {A} a.
Arguments Crashes {A} c.

Definition bind {A B : Type} (o : outcome A) (k : A -> outcome B) : outcome B :=
  match o with
  | Returns a => k a
  | Crashes c => Crashes c
  end.

Notation "x <- c ;; k" := (bind c (fun x => k))
  (at level 61, c at next level, right associativity).

(** Whether a call came back with a value. *)
Definition returned {A : Type} (o : outcome A) : bool :=
  match o with
  | Returns _ => true
  | Crashes _ => false
  end.

(** Runs the calls of a list in order; the first crash is the crash of the whole. *)
Fixpoint sequence {A : Type} (l : list (outcome A)) : outcome (list A) :=
  match l with
  | [] => Returns []
  | o :: rest => a <- o ;; r <- sequence rest ;; Returns (a :: r)
  end.

(** A pointer: [None] is nil. *)
Definition ptr (T : Type) : Type := option T.

(** Reading through a pointer. *)
Definition deref {T : Type} (p : ptr T) : outcome T :=
  match p with
  | Some v => Returns v
  | None => Crashes NilDereference
  end.

(** ** Machine integers *)

(** Go's [int], 64 bits, two's complement. *)
Definition wrap_int (z : Z) : Z := (z + 2 ^ 63) mod 2 ^ 64 - 2 ^ 63.

(** Conversion to [uint32]. *)
Definition to_uint32 (z : Z) : Z := z mod 2 ^ 32.

(** ** Characters the source writes with escapes *)

Definition LF : string := String "010"%char "".
Definition ESC : string := String "027"%char "".

(** ** Allocation *)

Module runtime.
(** [maxAlloc] on linux/amd64: a [make] of more bytes panics, whatever
    memory the machine has. *)
Definition maxAlloc : Z := 2 ^ 48.

(** A [make] of [n] bytes on a machine that can still hand out
    [available] bytes. *)
Definition alloc (available n : Z) : outcome unit :=
  if maxAlloc <? n then Crashes LenOutOfRange
  else if available <? n then Crashes OutOfMemory
  else Returns tt.
End runtime.

(** ** Go standard library *)

Module strconv.
(** [strconv.Itoa]: decimal text of an integer; also what [fmt] prints
    for an integer under [%d] and [%v]. *)
Definition Itoa (n : Z) : string := NilZero.string_of_int (Z.to_int n).
End strconv.

Module strings.
Fixpoint replicate (s : string) (n : nat) : string :=
  match n with
  | O => ""
  | S n' => s ++ replicate s n'
  end.

(** [strings.Repeat]: empty for a count of 0; panics on a negative count
    and when [len(s) * count] overflows [int]; otherwise allocates
    [len(s) * count] bytes, on a machine that can still hand out
    [available] bytes, and fills them with copies of [s]. *)
Definition Repeat (available : Z) (s : string) (count : Z) : outcome string :=
  if count =? 0 then Returns ""
  else if count <? 0 then Crashes NegativeRepeatCount
  else
    let n := Z.of_nat (String.length s) * count in
    if 2 ^ 63 <=? n then Crashes RepeatOverflow
    else _ <- runtime.alloc available n ;; Returns (replicate s (Z.to_nat count)).
End strings.

Module fmt.
(** The verb [%v] on an operand whose type has an [Error() string]
    method: fmt calls that method and prints the string it returns.
    The argument is that call. *)
Definition v_error (call_Error : outcome string) : outcome string := call_Error.

(** The verbs [%d] and [%v] on an integer without methods. *)
Definition d (n : Z) : string := strconv.Itoa n.
End fmt.

(** Package syscall on linux: a wait status is the [uint32] that wait4
    stored, decoded by masks and shifts. *)
Module syscall.
Definition WaitStatus : Set := Z.
Definition Signal : Set := Z.

Definition mask : Z := 0x7F.
Definition core : Z := 0x80.
Definition exited : Z := 0x00.
Definition stopped : Z := 0x7F.
Definition shift : Z := 8.
Definition SIGTRAP : Signal := 5.

Definition Exited (w : WaitStatus) : bool := Z.land w mask =? exited.

Definition Signaled (w : WaitStatus) : bool :=
  negb (Z.land w mask =? stopped) && negb (Z.land w mask =? exited).

Definition Stopped (w : WaitStatus) : bool := Z.land w 0xFF =? stopped.

Definition CoreDump (w : WaitStatus) : bool :=
  Signaled w && negb (Z.land w core =? 0).

Definition ExitStatus (w : WaitStatus) : Z :=
  if negb (Exited w) then -1
  else Z.land (Z.shiftr w shift) 0xFF.

Definition Signal_of (w : WaitStatus) : Signal :=
  if negb (Signaled w) then -1
  else Z.land w mask.

Definition StopSignal (w : WaitStatus) : Signal :=
  if negb (Stopped w) then -1
  else Z.land (Z.shiftr w shift) 0xFF.

Definition TrapCause (w : WaitStatus) : Z :=
  if negb (StopSignal w =? SIGTRAP) then -1
  else Z.shiftr (Z.shiftr w shift) 8.
End syscall.

(** ** Collaborators outside exception.go *)

(** Modelled from the spec: [util.SourceContext], one frame of a traceback.
    The source only follows [Next]; what a frame holds is an opaque
    source-location descriptor, kept here as [Site]. *)
#[warnings="-register-all"]
Inductive SourceContext : Type :=
  mkSourceContext { Site : string; Next : ptr SourceContext }.

(** Functions of other packages that exception.go calls and whose text it
    does not contain, and the machine it runs on. *)
Class Collaborators : Type := {
  (** [parse.Quote]: a string in elvish syntax. *)
  Quote : string -> string;
  (** [syscall.Signal.String]: the name of a signal. *)
  Signal_String : syscall.Signal -> string;
  (** [util.SourceContext.Pprint(w, indent)] on a frame: the text it writes to [w]. *)
  SourceContext_Pprint : SourceContext -> string -> string;
  (** The bytes of memory one allocation can still obtain. *)
  available_memory : Z
}.

(** ** Interfaces *)

(** A non-nil value of the interface [error], seen through its methods.
    [method_Error] is the call [Error()]. [method_Repr] is what the type
    assertion [.(Reprer)] finds: the method [Repr(indent int) string] when
    the dynamic type has it. [method_Pprint] likewise for
    [.(util.Pprinter)] and [Pprint() string]. *)
Record error : Type := {
  method_Error : outcome string;
  method_Repr : option (Z -> outcome string);
  method_Pprint : option (outcome string)
}.

(** [c.Error()] on an interface that may be nil. *)
Definition call_Error (c : option error) : outcome string :=
  match c with
  | Some d => method_Error d
  | None => Crashes NilDereference
  end.

(** [errors.New(msg)]: an error with a message and no further capability. *)
Definition errors_New (msg : string) : error :=
  {| method_Error := Returns msg; method_Repr := None; method_Pprint := None |}.

(** ** Exception *)

Record Exception : Type := {
  Cause : option error;
  Traceback : ptr SourceContext
}.

(** [var OK = &Exception{}] *)
Definition OK : ptr Exception := Some {| Cause := None; Traceback := None |}.

(** The loop [for tb := ...; tb != nil; tb = tb.Next] of [Pprint], entered
    at a non-nil frame. *)
Fixpoint Traceback_frames `{Collaborators} (tb : SourceContext) (buf : string) : string :=
  let buf := buf ++ (LF ++ "  ") in
  let buf := buf ++ SourceContext_Pprint tb "    " in
  match tb with
  | mkSourceContext _ (Some next) => Traceback_frames next buf
  | mkSourceContext _ None => buf
  end.

Module Exception.
Definition Error (exc : ptr Exception) : outcome string :=
  e <- deref exc ;;
  call_Error (Cause e).

Definition Pprint `{Collaborators} (exc : ptr Exception) : outcome string :=
  let buf := "" in
  e <- deref exc ;;
  msg <- match Cause e with
         | Some {| method_Pprint := Some pprint |} => pprint
         | c => s <- call_Error c ;;
                Returns (ESC ++ "[31;1m" ++ s ++ ESC ++ "[m")
         end ;;
  let buf := buf ++ ("Exception: " ++ msg ++ LF) in
  let buf := buf ++ "Traceback:" in
  Returns match Traceback e with
          | Some tb => Traceback_frames tb buf
          | None => buf
          end.

Definition Kind (exc : ptr Exception) : string := "exception".

Definition Repr `{Collaborators} (exc : ptr Exception) (indent : Z) : outcome string :=
  e <- deref exc ;;
  match Cause e with
  | None => Returns "$ok"
  | Some c =>
      match method_Repr c with
      | Some r => r indent
      | None => s <- method_Error c ;; Returns ("?(error " ++ Quote s ++ ")")
      end
  end.

Definition Bool (exc : ptr Exception) : outcome bool :=
  e <- deref exc ;;
  Returns match Cause e with
          | None => true
          | Some _ => false
          end.

(** A [*Exception] as a value of [error]: it has all three methods. *)
Definition as_error `{Collaborators} (exc : ptr Exception) : error :=
  {| method_Error := Error exc; method_Repr := Some (Repr exc);
     method_Pprint := Some (Pprint exc) |}.
End Exception.

(** ** PipelineError *)

Record PipelineError : Type := { Errors : list (ptr Exception) }.

Module PipelineError.
(** Body of [for _, e := range pe.Errors] in [Repr]. *)
Fixpoint Repr_range `{Collaborators} (es : list (ptr Exception)) (indent elemIndent : Z)
    (b : string) : outcome string :=
  match es with
  | [] => Returns b
  | e :: rest =>
      b <- (if 0 <? indent
            then pad <- strings.Repeat available_memory " " elemIndent ;;
                 Returns (b ++ (LF ++ pad))
            else Returns (b ++ " ")) ;;
      r <- Exception.Repr e elemIndent ;;
      Repr_range rest indent elemIndent (b ++ r)
  end.

Definition Repr `{Collaborators} (pe : PipelineError) (indent : Z) : outcome string :=
  let b := "?(multi-error" in
  let elemIndent := wrap_int (indent + Z.of_nat (String.length "?(multi-error ")) in
  b <- Repr_range (Errors pe) indent elemIndent b ;;
  Returns (b ++ ")").

(** Body of [for i, e := range pe.Errors] in [Error]; [i] is the index of
    the head of [es]. *)
Fixpoint Error_range (i : nat) (es : list (ptr Exception)) (b : string) : outcome string :=
  match es with
  | [] => Returns b
  | e :: rest =>
      let b := if (0 <? i)%nat then b ++ " | " else b in
      b <- match e with
           | None => Returns (b ++ "<nil>")
           | Some {| Cause := None |} => Returns (b ++ "<nil>")
           | Some _ => s <- Exception.Error e ;; Returns (b ++ s)
           end ;;
      Error_range (S i) rest b
  end.

Definition Error (pe : PipelineError) : outcome string :=
  let b := "(" in
  b <- Error_range 0 (Errors pe) b ;;
  Returns (b ++ ")").

(** A [PipelineError] as a value of [error]: it has [Repr], no [Pprint]. *)
Definition as_error `{Collaborators} (pe : PipelineError) : error :=
  {| method_Error := Error pe; method_Repr := Some (Repr pe); method_Pprint := None |}.
End PipelineError.

(** ** Flow *)

(** [type Flow uint] *)
Definition Flow : Set := N.

Definition Return : Flow := 0%N.
Definition Break : Flow := 1%N.
Definition Continue : Flow := 2%N.

Definition flowNames : list string := ["return"; "break"; "continue"].

Module Flow.
(** [Flow] has an [Error] method, so the [%v] of
    [fmt.Sprintf("!(BAD FLOW: %v)", f)] is a call of [f.Error()] again.
    [stack] is the number of call frames the goroutine stack still has
    room for; a call that finds none left ends the program. *)
Fixpoint Error (stack : nat) (f : Flow) : outcome string :=
  match stack with
  | O => Crashes StackExhausted
  | S stack' =>
      if (N.of_nat (length flowNames) <=? f)%N
      then s <- fmt.v_error (Error stack' f) ;; Returns ("!(BAD FLOW: " ++ s ++ ")")
      else Returns (nth (N.to_nat f) flowNames "")
  end.

Definition Repr (stack : nat) (f : Flow) (_ : Z) : outcome string :=
  s <- Error stack f ;; Returns ("?(" ++ s ++ ")").

Definition Pprint (stack : nat) (f : Flow) : outcome string :=
  s <- Error stack f ;; Returns (ESC ++ "[33;1m" ++ s ++ ESC ++ "[m").

(** A [Flow] as a value of [error]: it has all three methods. *)
Definition as_error (stack : nat) (f : Flow) : error :=
  {| method_Error := Error stack f; method_Repr := Some (Repr stack f);
     method_Pprint := Some (Pprint stack f) |}.
End Flow.

(** ** ExternalCmdExit *)

Record ExternalCmdExit : Set := {
  WaitStatus : syscall.WaitStatus;
  CmdName : string;
  Pid : Z
}.

(** The [error] returned is nil ([None]) or holds an [ExternalCmdExit]. *)
Definition NewExternalCmdExit (name : string) (ws : syscall.WaitStatus) (pid : Z)
    : option ExternalCmdExit :=
  if syscall.Exited ws && (syscall.ExitStatus ws =? 0) then None
  else
    let pid := if negb (syscall.Stopped ws) then 0 else pid in
    Some {| WaitStatus := ws; CmdName := name; Pid := pid |}.

Definition FakeExternalCmdExit (name : string) (exit : Z) (sig : syscall.Signal)
    : ExternalCmdExit :=
  {| WaitStatus := to_uint32 (wrap_int (wrap_int (Z.shiftl exit 8) + sig));
     CmdName := name;
     Pid := 0 |}.

Module ExternalCmdExit.
Definition Error `{Collaborators} (exit : ExternalCmdExit) : string :=
  let ws := WaitStatus exit in
  let quotedName := Quote (CmdName exit) in
  if syscall.Exited ws then
    quotedName ++ " exited with " ++ strconv.Itoa (syscall.ExitStatus ws)
  else if syscall.Signaled ws then
    let msg := quotedName ++ " killed by signal " ++ Signal_String (syscall.Signal_of ws) in
    if syscall.CoreDump ws then msg ++ " (core dumped)" else msg
  else if syscall.Stopped ws then
    let msg := quotedName ++ " stopped by signal "
               ++ (Signal_String (syscall.StopSignal ws) ++ " (pid=" ++ fmt.d (Pid exit) ++ ")") in
    let trap := syscall.TrapCause ws in
    if negb (trap =? -1) then msg ++ (" (trapped " ++ fmt.d trap ++ ")") else msg
  else
    quotedName ++ " has unknown WaitStatus " ++ fmt.d ws.

(** An [ExternalCmdExit] as a value of [error]: [Error] is its only method
    of the three. *)
Definition as_error `{Collaborators} (exit : ExternalCmdExit) : error :=
  {| method_Error := Returns (Error exit); method_Repr := None; method_Pprint := None |}.
End ExternalCmdExit.

(** ** allok *)

Fixpoint allok (es : list (ptr Exception)) : bool :=
  match es with
  | [] => true
  | e :: rest =>
      match e with
      | Some {| Cause := Some _ |} => false
      | _ => allok rest
      end
  end.

(** ** The store of the location tests (package location, test file) *)

(** Modelled from the spec: [storedefs.Dir], of which the test store reads
    [Path] only; the type of [Score] is left open. *)
Record Dir (score : Type) : Type := { Path : string; Score : score }.

Arguments Path {score} d.
Arguments Score {score} d.

(** A [map[string]struct{}], read only by key lookup: its keys. *)
Definition KeySet : Set := list string.

(** [_, ok := m[key]] *)
Definition has_key (m : KeySet) (key : string) : bool :=
  existsb (String.eqb key) m.

Record testStore (score : Type) : Type := {
  storedDirs : list (Dir score);
  dirsError : option error;
  chdir : option (string -> option error)
}.

Arguments storedDirs {score} t.
Arguments dirsError {score} t.
Arguments chdir {score} t.

Module testStore.
(** Body of [for _, dir := range ts.storedDirs]; [dirs] is the slice built
    so far. *)
Fixpoint Dirs_range {score : Type} (blacklist : KeySet) (stored : list (Dir score))
    (dirs : list (Dir score)) : list (Dir score) :=
  match stored with
  | [] => dirs
  | dir :: rest =>
      if has_key blacklist (Path dir) then Dirs_range blacklist rest dirs
      else Dirs_range blacklist rest (dirs ++ [dir])
  end.

Definition Dirs {score : Type} (ts : testStore score) (blacklist : KeySet)
    : list (Dir score) * option error :=
  let dirs := [] in
  (Dirs_range blacklist (storedDirs ts) dirs, dirsError ts).

Definition Chdir {score : Type} (ts : testStore score) (dir : string) : option error :=
  match chdir ts with
  | None => None
  | Some f => f dir
  end.
End testStore.

(** ** A sample of the collaborators, to run the definitions *)

(** Quotes with single quotes, names a signal by its number, prints a
    frame as its indent followed by its site, and has 16 GiB to hand
    out. *)
Definition sample : Collaborators :=
  {| Quote := fun s => "'" ++ s ++ "'";
     Signal_String := fun sig => "signal " ++ strconv.Itoa sig;
     SourceContext_Pprint := fun tb indent => indent ++ Site tb;
     available_memory := 2 ^ 34 |}.

(** * Vocabulary of the specification *)

(** A slot that counts as success: a nil pointer, or an Exception without
    cause. *)
Definition succeeded (e : ptr Exception) : Prop :=
  e = None \/ exists exc, e = Some exc /\ Cause exc = None.

(** A real wait status carrying an exit code and an optional signal: with
    no signal ([sig = 0]) it decodes as a normal exit with that code; with
    a signal it decodes as killed by that signal. *)
Definition carries (ws : syscall.WaitStatus) (exit : Z) (sig : syscall.Signal) : Prop :=
  if sig =? 0 then syscall.Exited ws = true /\ syscall.ExitStatus ws = exit
  else syscall.Signaled ws = true /\ syscall.Signal_of ws = sig.

(** What [NewExternalCmdExit] made of a real status and a fabricated value
    agree: both are failures, with the same message. *)
Definition decodes_alike `{Collaborators} (real : option ExternalCmdExit)
    (fake : ExternalCmdExit) : Prop :=
  match real with
  | None => False
  | Some e => ExternalCmdExit.Error e = ExternalCmdExit.Error fake
  end.

(** The text of one slot: [<nil>] for a nil pointer or an Exception
    without cause, the Exception's own [Error()] otherwise. *)
Definition slot_text (e : ptr Exception) : outcome string :=
  match e with
  | None => Returns "<nil>"
  | Some exc =>
      match Cause exc with
      | None => Returns "<nil>"
      | Some _ => Exception.Error e
      end
  end.

(** Every text of a list, each behind a separator. *)
Fixpoint after_each (sep : string) (texts : list string) : string :=
  match texts with
  | [] => ""
  | t :: rest => sep ++ t ++ after_each sep rest
  end.

(** The frames of a traceback, from the one the Exception points to along
    [Next]. *)
Fixpoint frames_from (tb : SourceContext) : list SourceContext :=
  tb :: match tb with
        | mkSourceContext _ (Some next) => frames_from next
        | mkSourceContext _ None => []
        end.

Definition frames (tb : ptr SourceContext) : list SourceContext :=
  match tb with
  | Some first => frames_from first
  | None => []
  end.

(** The first line of [Pprint], after [Exception: ]: the cause's own
    [Pprint()] when it has one, its [Error()] in bold red otherwise. *)
Definition headline (c : error) : outcome string :=
  match method_Pprint c with
  | Some pprint => pprint
  | None => s <- method_Error c ;; Returns (ESC ++ "[31;1m" ++ s ++ ESC ++ "[m")
  end.

(** What [PipelineError.Repr] writes before each element: a space on one
    line, or a line break and [elemIndent] spaces when [indent] is
    positive. *)
Definition separator `{Collaborators} (indent elemIndent : Z) : outcome string :=
  if 0 <? indent
  then pad <- strings.Repeat available_memory " " elemIndent ;; Returns (LF ++ pad)
  else Returns " ".

(** * Properties *)

(** ** Exception.Bool *)

(** C1: for every Exception, [Bool()] returns true if and only if its cause
    is nil; [OK.Bool()] is true, and an Exception built from any non-nil
    cause has [Bool()] false. *)
Theorem Bool_true_iff_no_cause :
  (forall exc : Exception,
      exists b, Exception.Bool (Some exc) = Returns b /\ (b = true <-> Cause exc = None)) /\
  Exception.Bool OK = Returns true /\
  (forall (c : error) (tb : ptr SourceContext),
      Exception.Bool (Some {| Cause := Some c; Traceback := tb |}) = Returns false).
Proof.
  split; [| split].
  - intros [[c|] tb]; cbn.
    + exists false. split; [reflexivity | split; discriminate].
    + exists true. split; [reflexivity | split; reflexivity].
  - reflexivity.
  - reflexivity.
Qed.

(** ** allok *)

Lemma allok_cons (e : ptr Exception) (rest : list (ptr Exception)) :
  allok (e :: rest) = true <-> succeeded e /\ allok rest = true.
Proof.
  destruct e as [[[c|] tb]|]; cbn; unfold succeeded.
  - split; [discriminate |].
    intros [[H | (exc & H & Hc)] _]; [discriminate |].
    injection H as <-. discriminate.
  - split; [| tauto]. intros H. split; [| exact H]. right. eauto.
  - split; [| tauto]. intros H. split; [| exact H]. left. reflexivity.
Qed.

Lemma allok_Forall (es : list (ptr Exception)) :
  allok es = true <-> Forall succeeded es.
Proof.
  induction es as [| e rest IH].
  - split; [constructor | reflexivity].
  - rewrite allok_cons, IH. split.
    + intros [He Hrest]. constructor; assumption.
    + intros H. inversion H; subst. split; assumption.
Qed.

Lemma allok_stops_at_failure (before after : list (ptr Exception)) (c : error)
    (tb : ptr SourceContext) :
  allok (before ++ Some {| Cause := Some c; Traceback := tb |} :: after) = false.
Proof.
  induction before as [| e rest IH]; cbn.
  - reflexivity.
  - rewrite IH. destruct e as [[[c'|] tb']|]; reflexivity.
Qed.

(** C4: [allok(es)] is true if and only if every element of [es] is a nil
    pointer or an Exception with nil cause; it is true for the empty slice,
    and false whenever some element is a non-nil Exception with a non-nil
    cause, whatever comes before and after it. *)
Theorem allok_iff_all_succeeded :
  (forall es : list (ptr Exception), allok es = true <-> Forall succeeded es) /\
  allok [] = true /\
  (forall (before after : list (ptr Exception)) (c : error) (tb : ptr SourceContext),
      allok (before ++ Some {| Cause := Some c; Traceback := tb |} :: after) = false).
Proof.
  split; [exact allok_Forall | split; [reflexivity | exact allok_stops_at_failure]].
Qed.

(** ** Strings and outcomes *)

Lemma append_assoc (a b c : string) : (a ++ b) ++ c = a ++ (b ++ c).
Proof.
  induction a as [| ch a IH]; cbn; [reflexivity | now rewrite IH].
Qed.

Lemma append_nil_r (a : string) : a ++ "" = a.
Proof.
  induction a as [| ch a IH]; cbn; [reflexivity | now rewrite IH].
Qed.

Lemma bind_Returns {A B : Type} (a : A) (k : A -> outcome B) :
  (x <- Returns a ;; k x) = k a.
Proof. reflexivity. Qed.

Lemma bind_assoc {A B C : Type} (o : outcome A) (k : A -> outcome B) (h : B -> outcome C) :
  (y <- (x <- o ;; k x) ;; h y) = (x <- o ;; y <- k x ;; h y).
Proof. destruct o; reflexivity. Qed.

(** ** Decoding a wait status *)

Lemma land_7F_of_FF (w : Z) : Z.land w 0x7F = Z.land (Z.land w 0xFF) 0x7F.
Proof.
  rewrite <- Z.land_assoc. reflexivity.
Qed.

Lemma Signaled_not_Exited (w : syscall.WaitStatus) :
  syscall.Signaled w = true -> syscall.Exited w = false.
Proof.
  unfold syscall.Signaled, syscall.Exited.
  rewrite andb_true_iff, !negb_true_iff. tauto.
Qed.

Lemma Stopped_not_Exited (w : syscall.WaitStatus) :
  syscall.Stopped w = true -> syscall.Exited w = false.
Proof.
  unfold syscall.Stopped, syscall.Exited, syscall.mask, syscall.stopped, syscall.exited.
  rewrite Z.eqb_eq. intros H. rewrite land_7F_of_FF, H. reflexivity.
Qed.

Lemma Stopped_not_Signaled (w : syscall.WaitStatus) :
  syscall.Stopped w = true -> syscall.Signaled w = false.
Proof.
  unfold syscall.Stopped, syscall.Signaled, syscall.mask, syscall.stopped, syscall.exited.
  rewrite Z.eqb_eq. intros H. rewrite land_7F_of_FF, H. reflexivity.
Qed.

Lemma Exited_not_Stopped (w : syscall.WaitStatus) :
  syscall.Exited w = true -> syscall.Stopped w = false.
Proof.
  intros Hex. destruct (syscall.Stopped w) eqn:Hstop; [| reflexivity].
  apply Stopped_not_Exited in Hstop. congruence.
Qed.

Lemma Signaled_not_Stopped (w : syscall.WaitStatus) :
  syscall.Signaled w = true -> syscall.Stopped w = false.
Proof.
  intros Hsig. destruct (syscall.Stopped w) eqn:Hstop; [| reflexivity].
  apply Stopped_not_Signaled in Hstop. congruence.
Qed.

(** ** NewExternalCmdExit *)

(** C2: [NewExternalCmdExit(name, ws, pid)] returns nil if and only if the
    wait status is a normal termination with exit code 0; every other
    status gives a non-nil value, which holds the status and the name, and
    whose [Pid] is [pid] when the process was stopped and 0 otherwise. *)
Theorem NewExternalCmdExit_nil_iff_zero_exit (name : string) (ws : syscall.WaitStatus)
    (pid : Z) :
  (NewExternalCmdExit name ws pid = None <->
     syscall.Exited ws = true /\ syscall.ExitStatus ws = 0) /\
  (~ (syscall.Exited ws = true /\ syscall.ExitStatus ws = 0) ->
     exists e, NewExternalCmdExit name ws pid = Some e) /\
  (forall e : ExternalCmdExit,
      NewExternalCmdExit name ws pid = Some e ->
      WaitStatus e = ws /\ CmdName e = name /\
      Pid e = if syscall.Stopped ws then pid else 0).
Proof.
  unfold NewExternalCmdExit.
  destruct (syscall.Exited ws && (syscall.ExitStatus ws =? 0)) eqn:Hzero.
  - apply andb_true_iff in Hzero as [Hex Hst]. apply Z.eqb_eq in Hst.
    repeat split; try discriminate; tauto.
  - apply andb_false_iff in Hzero.
    assert (Hnot : ~ (syscall.Exited ws = true /\ syscall.ExitStatus ws = 0)).
    { intros [Hex Hst]. destruct Hzero as [H | H].
      - congruence.
      - apply Z.eqb_neq in H. contradiction. }
    split; [split; [discriminate | tauto] | split].
    + intros _. eexists. reflexivity.
    + intros e He. injection He as <-. cbn.
      destruct (syscall.Stopped ws); auto.
Qed.

(** ** ExternalCmdExit.Error *)

(** C7: the message of an [ExternalCmdExit], by the kind of its status.
    Killed by a signal: quoted name, [ killed by signal ], the signal's
    name, and [ (core dumped)] exactly when the status has the core flag.
    Stopped: quoted name, [ stopped by signal ], the stop signal's name,
    [ (pid=<Pid>)], and [ (trapped <cause>)] exactly when [TrapCause] is
    not -1. Normal exit: quoted name, [ exited with ] and the code. Any
    other status: quoted name, [ has unknown WaitStatus ] and the raw
    status in decimal. As an [error], the call always returns. *)
Theorem ExternalCmdExit_Error_by_status `{Collaborators} (exit : ExternalCmdExit) :
  let ws := WaitStatus exit in
  let quoted := Quote (CmdName exit) in
  (syscall.Signaled ws = true ->
     ExternalCmdExit.Error exit =
       quoted ++ " killed by signal " ++ Signal_String (syscall.Signal_of ws)
       ++ (if syscall.CoreDump ws then " (core dumped)" else "")) /\
  (syscall.Stopped ws = true ->
     ExternalCmdExit.Error exit =
       quoted ++ " stopped by signal " ++ Signal_String (syscall.StopSignal ws)
       ++ " (pid=" ++ strconv.Itoa (Pid exit) ++ ")"
       ++ (if syscall.TrapCause ws =? -1 then ""
           else " (trapped " ++ strconv.Itoa (syscall.TrapCause ws) ++ ")")) /\
  (syscall.Exited ws = true ->
     ExternalCmdExit.Error exit =
       quoted ++ " exited with " ++ strconv.Itoa (syscall.ExitStatus ws)) /\
  (syscall.Exited ws = false -> syscall.Signaled ws = false -> syscall.Stopped ws = false ->
     ExternalCmdExit.Error exit =
       quoted ++ " has unknown WaitStatus " ++ strconv.Itoa ws) /\
  method_Error (ExternalCmdExit.as_error exit) = Returns (ExternalCmdExit.Error exit).
Proof.
  intros ws quoted. unfold ExternalCmdExit.Error. fold ws. fold quoted.
  repeat split.
  - intros Hsig. rewrite (Signaled_not_Exited _ Hsig), Hsig.
    destruct (syscall.CoreDump ws).
    + now rewrite !append_assoc.
    + now rewrite append_nil_r.
  - intros Hstop.
    rewrite (Stopped_not_Exited _ Hstop), (Stopped_not_Signaled _ Hstop), Hstop.
    unfold fmt.d. destruct (syscall.TrapCause ws =? -1); cbn [negb].
    + now rewrite append_nil_r.
    + now rewrite !append_assoc.
  - intros Hex. now rewrite Hex.
  - intros Hex Hsig Hstop. now rewrite Hex, Hsig, Hstop.
Qed.

(** ** FakeExternalCmdExit against NewExternalCmdExit *)

Lemma land_FF (a : Z) : Z.land a 0xFF = a mod 2 ^ 8.
Proof. change 0xFF with (Z.ones 8). apply Z.land_ones. lia. Qed.

Lemma land_7F (a : Z) : Z.land a 0x7F = a mod 2 ^ 7.
Proof. change 0x7F with (Z.ones 7). apply Z.land_ones. lia. Qed.

Lemma wrap_int_low_byte (z : Z) : wrap_int z mod 2 ^ 8 = z mod 2 ^ 8.
Proof.
  unfold wrap_int.
  pose proof (Z.div_mod (z + 2 ^ 63) (2 ^ 64) ltac:(lia)) as E.
  replace ((z + 2 ^ 63) mod 2 ^ 64 - 2 ^ 63)
    with (z + (- ((z + 2 ^ 63) / 2 ^ 64) * 2 ^ 56) * 2 ^ 8) by lia.
  apply Z_mod_plus_full.
Qed.

Lemma to_uint32_low_byte (z : Z) : to_uint32 z mod 2 ^ 8 = z mod 2 ^ 8.
Proof.
  unfold to_uint32.
  pose proof (Z.div_mod z (2 ^ 32) ltac:(lia)) as E.
  replace (z mod 2 ^ 32) with (z + (- (z / 2 ^ 32) * 2 ^ 24) * 2 ^ 8) by lia.
  apply Z_mod_plus_full.
Qed.

(** The low byte of a fabricated status is the signal number, whatever the
    exit code. *)
Lemma Fake_low_byte (name : string) (exit sig : Z) :
  0 <= sig < 2 ^ 8 ->
  WaitStatus (FakeExternalCmdExit name exit sig) mod 2 ^ 8 = sig.
Proof.
  intros Hs. cbn [FakeExternalCmdExit WaitStatus].
  rewrite to_uint32_low_byte, wrap_int_low_byte.
  rewrite Z.add_mod by lia. rewrite wrap_int_low_byte.
  rewrite Z.shiftl_mul_pow2 by lia. rewrite Z_mod_mult. cbn [Z.add].
  rewrite Z.mod_mod by lia. apply Z.mod_small. lia.
Qed.

Lemma wrap_int_small (z : Z) : - 2 ^ 63 <= z < 2 ^ 63 -> wrap_int z = z.
Proof.
  intros Hz. unfold wrap_int. rewrite Z.mod_small by lia. lia.
Qed.

Lemma Fake_exit_status (name : string) (exit : Z) :
  0 <= exit < 2 ^ 8 ->
  WaitStatus (FakeExternalCmdExit name exit 0) = exit * 2 ^ 8.
Proof.
  intros He. cbn [FakeExternalCmdExit WaitStatus].
  rewrite Z.shiftl_mul_pow2 by lia.
  rewrite (wrap_int_small (exit * 2 ^ 8)) by lia.
  rewrite Z.add_0_r, wrap_int_small by lia.
  unfold to_uint32. apply Z.mod_small. lia.
Qed.

Lemma land_80_small (a : Z) : 0 <= a < 2 ^ 7 -> Z.land a 0x80 = 0.
Proof.
  intros Ha. apply Z.bits_inj'. intros n Hn.
  rewrite Z.land_spec, Z.bits_0.
  change 0x80 with (2 ^ 7). rewrite Z.pow2_bits_eqb by lia.
  destruct (Z.eqb_spec 7 n) as [<- | Hne].
  - rewrite andb_true_r. destruct (Z.eq_dec a 0) as [-> | Hnz]; [reflexivity |].
    apply Z.bits_above_log2; [lia |]. apply Z.log2_lt_pow2; lia.
  - apply andb_false_r.
Qed.

Lemma land_low_byte (a m : Z) : 0 <= m < 2 ^ 8 -> Z.land a m = Z.land (a mod 2 ^ 8) m.
Proof.
  intros Hm. rewrite <- land_FF. rewrite <- Z.land_assoc. f_equal.
  rewrite Z.land_comm. rewrite land_FF. symmetry. apply Z.mod_small. lia.
Qed.

(** An exit code without signal fabricates a normal exit with that code. *)
Lemma Fake_decodes_exit (name : string) (exit : Z) :
  0 <= exit < 2 ^ 8 ->
  let w := WaitStatus (FakeExternalCmdExit name exit 0) in
  syscall.Exited w = true /\ syscall.ExitStatus w = exit.
Proof.
  intros He w. unfold w. rewrite Fake_exit_status by exact He.
  assert (Hex : syscall.Exited (exit * 2 ^ 8) = true).
  { unfold syscall.Exited, syscall.mask, syscall.exited. rewrite land_7F.
    replace (exit * 2 ^ 8) with (exit * 2 * 2 ^ 7) by lia.
    rewrite Z_mod_mult. reflexivity. }
  split; [exact Hex |].
  unfold syscall.ExitStatus, syscall.shift. rewrite Hex. cbn [negb].
  rewrite Z.shiftr_div_pow2 by lia. rewrite Z_div_mult by lia.
  rewrite land_FF. apply Z.mod_small. exact He.
Qed.

(** A signal number fabricates a status killed by that signal, without core
    dump, whatever the exit code. *)
Lemma Fake_decodes_signal (name : string) (exit sig : Z) :
  0 < sig < 0x7F ->
  let w := WaitStatus (FakeExternalCmdExit name exit sig) in
  syscall.Signaled w = true /\ syscall.Signal_of w = sig /\ syscall.CoreDump w = false.
Proof.
  intros Hs w.
  assert (Hlow : w mod 2 ^ 8 = sig) by (apply Fake_low_byte; lia).
  assert (Hmask : Z.land w syscall.mask = sig).
  { unfold syscall.mask. rewrite land_low_byte, Hlow, land_7F by lia.
    apply Z.mod_small. lia. }
  assert (Hsig : syscall.Signaled w = true).
  { unfold syscall.Signaled, syscall.stopped, syscall.exited. rewrite Hmask.
    apply andb_true_iff. rewrite !negb_true_iff, !Z.eqb_neq. lia. }
  split; [exact Hsig | split].
  - unfold syscall.Signal_of. rewrite Hsig. exact Hmask.
  - unfold syscall.CoreDump, syscall.core. rewrite Hsig.
    rewrite land_low_byte, Hlow, land_80_small by lia. reflexivity.
Qed.

(** The message of a status that decodes as a normal exit. *)
Lemma Error_exited `{Collaborators} (e : ExternalCmdExit) :
  syscall.Exited (WaitStatus e) = true ->
  ExternalCmdExit.Error e =
    Quote (CmdName e) ++ " exited with " ++ strconv.Itoa (syscall.ExitStatus (WaitStatus e)).
Proof.
  intros Hex. unfold ExternalCmdExit.Error. now rewrite Hex.
Qed.

(** The message of a status that decodes as killed, without core dump. *)
Lemma Error_killed `{Collaborators} (e : ExternalCmdExit) :
  syscall.Signaled (WaitStatus e) = true ->
  syscall.CoreDump (WaitStatus e) = false ->
  ExternalCmdExit.Error e =
    Quote (CmdName e) ++ " killed by signal " ++ Signal_String (syscall.Signal_of (WaitStatus e)).
Proof.
  intros Hsig Hcore. unfold ExternalCmdExit.Error.
  now rewrite (Signaled_not_Exited _ Hsig), Hsig, Hcore.
Qed.

Lemma ExitStatus_range (w : syscall.WaitStatus) :
  syscall.Exited w = true -> 0 <= syscall.ExitStatus w < 2 ^ 8.
Proof.
  intros Hex. unfold syscall.ExitStatus. rewrite Hex. cbn [negb].
  rewrite land_FF. apply Z.mod_pos_bound. lia.
Qed.

Lemma Signal_of_range (w : syscall.WaitStatus) :
  syscall.Signaled w = true -> 0 < syscall.Signal_of w < 0x7F.
Proof.
  intros Hsig. unfold syscall.Signal_of. rewrite Hsig. cbn [negb].
  unfold syscall.Signaled, syscall.stopped, syscall.exited in Hsig.
  apply andb_true_iff in Hsig as [H1 H2].
  rewrite negb_true_iff, Z.eqb_neq in H1, H2.
  pose proof (Z.mod_pos_bound w (2 ^ 7) ltac:(lia)) as Hb.
  unfold syscall.mask in *. rewrite land_7F in *. lia.
Qed.

(** C3, as stated, fails. A status 0 is a real normal exit with code 0:
    [NewExternalCmdExit] answers nil for it, while
    [FakeExternalCmdExit(name, 0, 0)] is a failure value, under every
    quoting. And a real status 0x8B (killed by signal 11, core dumped)
    carries signal 11, but its message ends in [ (core dumped)], which the
    value fabricated from signal 11 does not. *)
Lemma Fake_zero_exit_not_like_real :
  (carries 0 0 0 /\
   NewExternalCmdExit "true" 0 1234 = None /\
   forall C : Collaborators,
     ~ @decodes_alike C (NewExternalCmdExit "true" 0 1234) (FakeExternalCmdExit "true" 0 0)) /\
  (carries 0x8B 0 11 /\
   ~ @decodes_alike sample (NewExternalCmdExit "cat" 0x8B 1234) (FakeExternalCmdExit "cat" 0 11)).
Proof.
  split.
  - split; [| split].
    + split; reflexivity.
    + reflexivity.
    + intros C H. exact H.
  - split.
    + split; reflexivity.
    + vm_compute. discriminate.
Qed.

(** C3, amended: for every command name, every exit code other than 0 when
    there is no signal, and every signal number, the value
    [FakeExternalCmdExit(name, exit, sig)] is a failure with the same
    message, name and pid as the failure [NewExternalCmdExit] returns for
    any real status that carries that exit code, or that signal without a
    core dump. *)
Theorem Fake_decodes_like_real `{Collaborators} (name : string) (exit : Z)
    (sig : syscall.Signal) (ws : syscall.WaitStatus) (pid : Z) :
  carries ws exit sig ->
  (sig = 0 -> exit <> 0) ->
  syscall.CoreDump ws = false ->
  decodes_alike (NewExternalCmdExit name ws pid) (FakeExternalCmdExit name exit sig) /\
  exists e : ExternalCmdExit,
    NewExternalCmdExit name ws pid = Some e /\
    CmdName e = CmdName (FakeExternalCmdExit name exit sig) /\
    Pid e = Pid (FakeExternalCmdExit name exit sig).
Proof.
  intros Hcarries Hnonzero Hcore. unfold carries in Hcarries.
  destruct (Z.eqb_spec sig 0) as [-> | Hsig0].
  - destruct Hcarries as [Hex Hcode]. specialize (Hnonzero eq_refl).
    pose proof (ExitStatus_range ws Hex) as Hrange. rewrite Hcode in Hrange.
    destruct (Fake_decodes_exit name exit Hrange) as [Hfex Hfcode].
    unfold NewExternalCmdExit. rewrite Hex, Hcode.
    destruct (Z.eqb_spec exit 0) as [-> | _]; [contradiction |].
    rewrite (Exited_not_Stopped ws Hex). cbn [andb negb].
    split.
    + cbn [decodes_alike]. rewrite !Error_exited by assumption.
      cbn [WaitStatus CmdName] in *. now rewrite Hfcode, Hcode.
    + eexists. split; [reflexivity | split; reflexivity].
  - destruct Hcarries as [Hkill Hsig].
    pose proof (Signal_of_range ws Hkill) as Hrange. rewrite Hsig in Hrange.
    destruct (Fake_decodes_signal name exit sig Hrange) as (Hfkill & Hfsig & Hfcore).
    unfold NewExternalCmdExit.
    rewrite (Signaled_not_Exited ws Hkill), (Signaled_not_Stopped ws Hkill).
    cbn [andb negb].
    split.
    + cbn [decodes_alike]. rewrite !Error_killed by assumption.
      cbn [WaitStatus CmdName] in *. now rewrite Hfsig, Hsig.
    + eexists. split; [reflexivity | split; reflexivity].
Qed.

Lemma Fake_decodes_like_real_witness :
  (carries 0x100 1 0 /\
   @decodes_alike sample (NewExternalCmdExit "false" 0x100 77) (FakeExternalCmdExit "false" 1 0)) /\
  (carries 9 0 9 /\
   @decodes_alike sample (NewExternalCmdExit "sleep" 9 77) (FakeExternalCmdExit "sleep" 0 9)).
Proof.
  split.
  - split; [split; reflexivity |].
    apply (@Fake_decodes_like_real sample "false" 1 0 0x100 77).
    + split; reflexivity.
    + intros _. discriminate.
    + reflexivity.
  - split; [split; reflexivity |].
    apply (@Fake_decodes_like_real sample "sleep" 0 9 9 77).
    + split; reflexivity.
    + discriminate.
    + reflexivity.
Defined.

(** ** PipelineError.Error *)

Lemma concat_cons (sep t : string) (rest : list string) :
  String.concat sep (t :: rest) = t ++ after_each sep rest.
Proof.
  revert t. induction rest as [| t' rest IH]; intros t.
  - cbn. now rewrite append_nil_r.
  - cbn [after_each]. rewrite <- IH. reflexivity.
Qed.

Lemma Error_range_step (i : nat) (e : ptr Exception) (rest : list (ptr Exception))
    (b : string) :
  PipelineError.Error_range i (e :: rest) b =
    (s <- slot_text e ;;
     PipelineError.Error_range (S i) rest ((if (0 <? i)%nat then b ++ " | " else b) ++ s)).
Proof.
  cbn [PipelineError.Error_range].
  destruct e as [[[c|] tb]|]; cbn [slot_text Cause]; try reflexivity.
  now rewrite bind_assoc.
Qed.

Lemma Error_range_later (es : list (ptr Exception)) (i : nat) (b : string) :
  (0 < i)%nat ->
  PipelineError.Error_range i es b =
    (texts <- sequence (map slot_text es) ;; Returns (b ++ after_each " | " texts)).
Proof.
  revert i b. induction es as [| e rest IH]; intros i b Hi.
  - cbn. now rewrite append_nil_r.
  - rewrite Error_range_step. cbn [map sequence]. rewrite bind_assoc.
    destruct (slot_text e) as [s | c]; [| reflexivity].
    rewrite !bind_Returns, IH by lia. rewrite bind_assoc.
    destruct (sequence (map slot_text rest)) as [texts | c]; [| reflexivity].
    cbn [bind after_each]. apply Nat.ltb_lt in Hi. rewrite Hi.
    now rewrite !append_assoc.
Qed.

Lemma Error_range_first (es : list (ptr Exception)) (b : string) :
  PipelineError.Error_range 0 es b =
    (texts <- sequence (map slot_text es) ;; Returns (b ++ String.concat " | " texts)).
Proof.
  destruct es as [| e rest].
  - cbn. now rewrite append_nil_r.
  - rewrite Error_range_step. cbn [map sequence]. rewrite bind_assoc.
    destruct (slot_text e) as [s | c]; [| reflexivity].
    rewrite !bind_Returns, Error_range_later by lia. rewrite bind_assoc.
    destruct (sequence (map slot_text rest)) as [texts | c]; [| reflexivity].
    cbn [bind Nat.ltb Nat.leb]. rewrite concat_cons. now rewrite !append_assoc.
Qed.

(** C5: [PipelineError.Error()] is an opening parenthesis, the texts of the
    slots in index order separated by [ | ], and a closing parenthesis,
    where a slot that is nil or has a nil cause reads [<nil>] and every
    other slot reads as its own [Error()]; three slots [nil, errA, nil]
    read [(<nil> | errA-message | <nil>)]. *)
Theorem PipelineError_Error_in_order :
  (forall pe : PipelineError,
      PipelineError.Error pe =
        (texts <- sequence (map slot_text (Errors pe)) ;;
         Returns ("(" ++ String.concat " | " texts ++ ")"))) /\
  (forall (errA : error) (message : string) (tb : ptr SourceContext),
      method_Error errA = Returns message ->
      PipelineError.Error
        {| Errors := [None; Some {| Cause := Some errA; Traceback := tb |}; None] |} =
        Returns ("(<nil> | " ++ message ++ " | <nil>)")) /\
  PipelineError.Error
    {| Errors := [None;
                  Some {| Cause := Some (errors_New "errA-message"); Traceback := None |};
                  None] |} =
    Returns "(<nil> | errA-message | <nil>)".
Proof.
  assert (Hgen : forall pe : PipelineError,
      PipelineError.Error pe =
        (texts <- sequence (map slot_text (Errors pe)) ;;
         Returns ("(" ++ String.concat " | " texts ++ ")"))).
  { intros pe. unfold PipelineError.Error. rewrite Error_range_first, bind_assoc.
    destruct (sequence (map slot_text (Errors pe))) as [texts | c]; [| reflexivity].
    cbn [bind]. now rewrite append_assoc. }
  split; [exact Hgen | split].
  - intros errA message tb Hmsg. rewrite Hgen.
    cbn [Errors map sequence slot_text Cause Exception.Error deref call_Error bind].
    rewrite Hmsg. cbn [bind String.concat]. now rewrite !append_assoc.
  - reflexivity.
Qed.

(** ** Exception.Repr *)

(** C6: [Repr] of an Exception is [$ok] when the cause is nil, as for the
    zero-value Exception and for [OK]; when the cause is not nil and has
    the [Repr] method, it is what that method returns for the same indent;
    otherwise it is [?(error ], the quoted [Error()] message of the cause,
    and [)]. *)
Theorem Exception_Repr_by_cause `{Collaborators} :
  (forall (exc : Exception) (indent : Z),
      Cause exc = None -> Exception.Repr (Some exc) indent = Returns "$ok") /\
  (forall indent : Z,
      Exception.Repr (Some {| Cause := None; Traceback := None |}) indent = Returns "$ok" /\
      Exception.Repr OK indent = Returns "$ok") /\
  (forall (exc : Exception) (indent : Z) (c : error) (r : Z -> outcome string),
      Cause exc = Some c -> method_Repr c = Some r ->
      Exception.Repr (Some exc) indent = r indent) /\
  (forall (exc : Exception) (indent : Z) (c : error),
      Cause exc = Some c -> method_Repr c = None ->
      Exception.Repr (Some exc) indent =
        (message <- method_Error c ;; Returns ("?(error " ++ Quote message ++ ")"))).
Proof.
  repeat split.
  - intros exc indent Hc. unfold Exception.Repr. cbn [deref bind]. now rewrite Hc.
  - intros exc indent c r Hc Hr. unfold Exception.Repr. cbn [deref bind].
    now rewrite Hc, Hr.
  - intros exc indent c Hc Hr. unfold Exception.Repr. cbn [deref bind].
    now rewrite Hc, Hr.
Qed.

(** ** Flow *)

Lemma Flow_Error_out_of_range (stack : nat) (f : Flow) :
  (3 <= f)%N -> Flow.Error stack f = Crashes StackExhausted.
Proof.
  intros Hf. induction stack as [| stack IH]; cbn [Flow.Error].
  - reflexivity.
  - change (N.of_nat (length flowNames)) with 3%N.
    apply N.leb_le in Hf. rewrite Hf. unfold fmt.v_error. now rewrite IH.
Qed.

(** C8: on the three named constants, with room for one call frame,
    [Flow.Error()] is [return], [break], [continue] and [Flow.Repr] is
    [?(return)], [?(break)], [?(continue)]. On the tag 3, and on every tag
    outside the three, [Flow.Error()] calls itself through [%v] until the
    stack is exhausted, whatever room there was: no string is returned. *)
Theorem Flow_Error_bad_tag_never_returns :
  (forall stack : nat,
      Flow.Error stack 3%N = Crashes StackExhausted /\
      Flow.Repr stack 3%N 0 = Crashes StackExhausted) /\
  (forall (stack : nat) (f : Flow),
      (3 <= f)%N ->
      Flow.Error stack f = Crashes StackExhausted /\
      returned (Flow.Repr stack f 0) = false) /\
  (forall stack : nat,
      Flow.Error (S stack) Return = Returns "return" /\
      Flow.Error (S stack) Break = Returns "break" /\
      Flow.Error (S stack) Continue = Returns "continue" /\
      Flow.Repr (S stack) Return 0 = Returns "?(return)" /\
      Flow.Repr (S stack) Break 0 = Returns "?(break)" /\
      Flow.Repr (S stack) Continue 0 = Returns "?(continue)").
Proof.
  split; [| split].
  - intros stack. unfold Flow.Repr.
    rewrite Flow_Error_out_of_range by reflexivity. split; reflexivity.
  - intros stack f Hf. unfold Flow.Repr.
    rewrite Flow_Error_out_of_range by exact Hf. split; reflexivity.
  - intros stack. repeat split.
Qed.

(** ** Exception.Error and Exception.Pprint without cause *)

(** C9: on an Exception whose cause is nil, as [OK] is, [Error()] and
    [Pprint()] panic on the nil cause, while [Bool()] and [Repr] return;
    so whenever [Error()] or [Pprint()] returns, the cause is not nil. *)
Theorem Error_and_Pprint_need_a_cause `{Collaborators} :
  (Exception.Error OK = Crashes NilDereference /\
   Exception.Pprint OK = Crashes NilDereference) /\
  (forall exc : Exception,
      Cause exc = None ->
      Exception.Error (Some exc) = Crashes NilDereference /\
      Exception.Pprint (Some exc) = Crashes NilDereference /\
      Exception.Bool (Some exc) = Returns true /\
      forall indent : Z, Exception.Repr (Some exc) indent = Returns "$ok") /\
  (forall (exc : Exception) (s : string),
      Exception.Error (Some exc) = Returns s \/ Exception.Pprint (Some exc) = Returns s ->
      Cause exc <> None).
Proof.
  assert (Hnil : forall exc : Exception,
      Cause exc = None ->
      Exception.Error (Some exc) = Crashes NilDereference /\
      Exception.Pprint (Some exc) = Crashes NilDereference).
  { intros [c tb] Hc. cbn in Hc. subst c. split; reflexivity. }
  split; [split; reflexivity | split].
  - intros exc Hc. destruct (Hnil exc Hc) as [He Hp].
    repeat split; try assumption.
    + unfold Exception.Bool. cbn [deref bind]. now rewrite Hc.
    + intros indent. unfold Exception.Repr. cbn [deref bind]. now rewrite Hc.
  - intros exc s Hret Hc. destruct (Hnil exc Hc) as [He Hp].
    destruct Hret as [Hret | Hret]; congruence.
Qed.

(** ** PipelineError.Repr on a nil slot *)

(** One round of the loop of [Repr]: the separator, the slot, the rest. *)
Lemma Repr_range_cons `{Collaborators} (e : ptr Exception) (rest : list (ptr Exception))
    (indent elemIndent : Z) (b : string) :
  PipelineError.Repr_range (e :: rest) indent elemIndent b =
    (sep <- separator indent elemIndent ;;
     r <- Exception.Repr e elemIndent ;;
     PipelineError.Repr_range rest indent elemIndent ((b ++ sep) ++ r)).
Proof.
  cbn [PipelineError.Repr_range]. unfold separator. destruct (0 <? indent).
  - destruct (strings.Repeat available_memory " " elemIndent) as [pad | c]; reflexivity.
  - reflexivity.
Qed.





Lemma Error_as_sequence (pe : PipelineError) :
  PipelineError.Error pe =
    (texts <- sequence (map slot_text (Errors pe)) ;;
     Returns ("(" ++ String.concat " | " texts ++ ")")).
Proof.
  unfold PipelineError.Error. rewrite Error_range_first, bind_assoc.
  destruct (sequence (map slot_text (Errors pe))) as [texts | c]; [| reflexivity].
  cbn [bind]. now rewrite append_assoc.
Qed.



(** * Runs of the model *)

Example ExternalCmdExit_Error_runs :
  @ExternalCmdExit.Error sample {| WaitStatus := 0x200; CmdName := "ls"; Pid := 0 |}
    = "'ls' exited with 2" /\
  @ExternalCmdExit.Error sample {| WaitStatus := 0x09; CmdName := "ls"; Pid := 0 |}
    = "'ls' killed by signal signal 9" /\
  @ExternalCmdExit.Error sample {| WaitStatus := 0x8B; CmdName := "ls"; Pid := 0 |}
    = "'ls' killed by signal signal 11 (core dumped)" /\
  @ExternalCmdExit.Error sample {| WaitStatus := 0x137F; CmdName := "ls"; Pid := 42 |}
    = "'ls' stopped by signal signal 19 (pid=42)" /\
  @ExternalCmdExit.Error sample {| WaitStatus := 0x3057F; CmdName := "ls"; Pid := 42 |}
    = "'ls' stopped by signal signal 5 (pid=42) (trapped 3)" /\
  @ExternalCmdExit.Error sample {| WaitStatus := 0xFFFF; CmdName := "ls"; Pid := 0 |}
    = "'ls' has unknown WaitStatus 65535".
Proof. repeat split. Qed.

Example NewExternalCmdExit_runs :
  NewExternalCmdExit "ls" 0 42 = None /\
  NewExternalCmdExit "ls" 0x100 42 = Some {| WaitStatus := 0x100; CmdName := "ls"; Pid := 0 |} /\
  NewExternalCmdExit "ls" 0x137F 42 = Some {| WaitStatus := 0x137F; CmdName := "ls"; Pid := 42 |}.
Proof. repeat split. Qed.

Example allok_runs :
  allok [OK; OK] = true /\
  allok [OK; Some {| Cause := Some (errors_New "err"); Traceback := None |}] = false /\
  allok [None; OK] = true.
Proof. repeat split. Qed.

Example Exception_Repr_runs :
  @Exception.Repr sample (Some {| Cause := Some (errors_New "bad"); Traceback := None |}) 0
    = Returns "?(error 'bad')" /\
  @Exception.Repr sample
     (Some {| Cause := Some (Flow.as_error 1 Return); Traceback := None |}) 0
    = Returns "?(return)" /\
  @Exception.Repr sample
     (Some {| Cause := Some (@ExternalCmdExit.as_error sample (FakeExternalCmdExit "ls" 2 0));
              Traceback := None |}) 0
    = Returns "?(error ''ls' exited with 2')" /\
  @Exception.Repr sample
     (Some {| Cause := Some (@PipelineError.as_error sample
                               {| Errors := [OK; Some {| Cause := Some (errors_New "bad");
                                                         Traceback := None |}] |});
              Traceback := None |}) 0
    = Returns "?(multi-error $ok ?(error 'bad'))".
Proof. repeat split. Qed.

Example PipelineError_Repr_runs :
  @PipelineError.Repr sample
     {| Errors := [OK; Some {| Cause := Some (errors_New "bad"); Traceback := None |}] |} 2
    = Returns ("?(multi-error" ++ LF ++ "                $ok"
               ++ LF ++ "                ?(error 'bad'))") /\
  @PipelineError.Repr sample {| Errors := [OK] |} (2 ^ 63 - 15) = Crashes LenOutOfRange /\
  @PipelineError.Repr sample {| Errors := [OK] |} (2 ^ 40) = Crashes OutOfMemory /\
  @PipelineError.Repr sample {| Errors := [] |} (2 ^ 63 - 15) = Returns "?(multi-error)".
Proof. repeat split. Qed.

Example Exception_Pprint_runs :
  @Exception.Pprint sample
     (Some {| Cause := Some (errors_New "bad");
              Traceback := Some (mkSourceContext "a.elv:1" (Some (mkSourceContext "b.elv:2" None))) |})
    = Returns ("Exception: " ++ ESC ++ "[31;1mbad" ++ ESC ++ "[m" ++ LF ++ "Traceback:"
               ++ LF ++ "      a.elv:1" ++ LF ++ "      b.elv:2").
Proof. reflexivity. Qed.

(** * Further properties of exception.go *)

(** ** The layout of Exception.Pprint *)

Lemma Traceback_frames_layout `{Collaborators} (tb : SourceContext) (buf : string) :
  Traceback_frames tb buf =
    buf ++ after_each (LF ++ "  ")
             (map (fun frame => SourceContext_Pprint frame "    ") (frames_from tb)).
Proof.
  revert tb buf. fix IH 1. intros [site [next |]] buf.
  - cbn [Traceback_frames frames_from map after_each]. rewrite IH.
    now rewrite !append_assoc.
  - cbn [Traceback_frames frames_from map after_each].
    now rewrite append_nil_r, !append_assoc.
Qed.

Lemma Pprint_with_cause `{Collaborators} (c : error) (tb : ptr SourceContext) :
  Exception.Pprint (Some {| Cause := Some c; Traceback := tb |}) =
    (msg <- headline c ;;
     Returns ("Exception: " ++ msg ++ LF ++ "Traceback:"
              ++ after_each (LF ++ "  ")
                   (map (fun frame => SourceContext_Pprint frame "    ") (frames tb)))).
Proof.
  assert (Hframes : forall buf : string,
      match tb with
      | Some first => Traceback_frames first buf
      | None => buf
      end = buf ++ after_each (LF ++ "  ")
                     (map (fun frame => SourceContext_Pprint frame "    ") (frames tb))).
  { intros buf. destruct tb as [first |]; cbn [frames].
    - apply Traceback_frames_layout.
    - cbn [map after_each]. now rewrite append_nil_r. }
  unfold Exception.Pprint, headline.
  destruct c as [e r [p |]];
    cbn [deref bind Cause Traceback method_Pprint method_Error call_Error].
  - destruct p as [msg | crashed]; [| reflexivity].
    cbn [bind]. rewrite Hframes. cbn [append]. now rewrite !append_assoc.
  - destruct e as [s | crashed]; [| reflexivity].
    cbn [bind]. rewrite Hframes. cbn [append]. now rewrite !append_assoc.
Qed.

(** X1: [Pprint()] of an Exception without cause panics; with a cause it
    is the line [Exception: ] with the cause's headline (its own
    [Pprint()] when it has one, its red [Error()] otherwise), the line
    [Traceback:], and then one line per frame of the traceback, each
    indented by two spaces, in the order of the [Next] chain; it then
    crashes exactly as the headline does. *)
Theorem Exception_Pprint_layout `{Collaborators} (exc : Exception) :
  Exception.Pprint (Some exc) =
    match Cause exc with
    | None => Crashes NilDereference
    | Some c =>
        msg <- headline c ;;
        Returns ("Exception: " ++ msg ++ LF ++ "Traceback:"
                 ++ after_each (LF ++ "  ")
                      (map (fun frame => SourceContext_Pprint frame "    ")
                           (frames (Traceback exc))))
    end.
Proof.
  destruct exc as [[c |] tb]; cbn [Cause Traceback].
  - apply Pprint_with_cause.
  - reflexivity.
Qed.

(** ** The layout of PipelineError.Repr *)


Lemma Repr_range_no_separator `{Collaborators} (e : ptr Exception)
    (rest : list (ptr Exception)) (indent elemIndent : Z) (b : string) (crashed : crash) :
  separator indent elemIndent = Crashes crashed ->
  PipelineError.Repr_range (e :: rest) indent elemIndent b = Crashes crashed.
Proof.
  intros Hsep. now rewrite Repr_range_cons, Hsep.
Qed.


Lemma Repr_without_separator `{Collaborators} (pe : PipelineError) (indent : Z)
    (crashed : crash) :
  Errors pe <> [] ->
  separator indent (wrap_int (indent + 14)) = Crashes crashed ->
  PipelineError.Repr pe indent = Crashes crashed.
Proof.
  intros Hslots Hsep. unfold PipelineError.Repr.
  change (Z.of_nat (String.length "?(multi-error ")) with 14.
  destruct (Errors pe) as [| e rest]; [contradiction |].
  now rewrite (Repr_range_no_separator _ _ _ _ _ crashed) by exact Hsep.
Qed.




(** X3: with at least one slot and an indent within 14 of the largest
    [int], [indent + 14] wraps to a negative count and
    [PipelineError.Repr] panics in [strings.Repeat], before any slot is
    looked at. *)
Theorem PipelineError_Repr_indent_overflow `{Collaborators} (pe : PipelineError)
    (indent : Z) :
  Errors pe <> [] ->
  2 ^ 63 - 14 <= indent < 2 ^ 63 ->
  PipelineError.Repr pe indent = Crashes NegativeRepeatCount.
Proof.
  intros Hslots Hindent. apply Repr_without_separator; [exact Hslots |].
  unfold separator, strings.Repeat.
  destruct (Z.ltb_spec 0 indent) as [_ | Hneg]; [| lia].
  assert (Hwrap : wrap_int (indent + 14) = indent + 14 - 2 ^ 64).
  { unfold wrap_int.
    replace (indent + 14 + 2 ^ 63) with (indent + 14 - 2 ^ 63 + 1 * 2 ^ 64) by lia.
    rewrite Z_mod_plus_full, Z.mod_small by lia. lia. }
  rewrite Hwrap.
  destruct (Z.eqb_spec (indent + 14 - 2 ^ 64) 0) as [Hz | _]; [lia |].
  destruct (Z.ltb_spec (indent + 14 - 2 ^ 64) 0) as [_ | Hge]; [reflexivity | lia].
Qed.

Lemma PipelineError_Repr_indent_overflow_witness :
  @PipelineError.Repr sample {| Errors := [OK] |} (2 ^ 63 - 1) = Crashes NegativeRepeatCount.
Proof.
  apply (@PipelineError_Repr_indent_overflow sample {| Errors := [OK] |} (2 ^ 63 - 1)).
  - discriminate.
  - lia.
Defined.

(** ** When PipelineError.Error returns *)

Lemma returned_sequence {A B : Type} (f : A -> outcome B) (l : list A) :
  returned (sequence (map f l)) = forallb (fun a => returned (f a)) l.
Proof.
  induction l as [| a rest IH]; [reflexivity |].
  cbn [map sequence forallb]. destruct (f a) as [b | c]; [| reflexivity].
  cbn [bind returned andb]. rewrite <- IH.
  destruct (sequence (map f rest)); reflexivity.
Qed.

Lemma returned_bind_Returns {A B : Type} (o : outcome A) (g : A -> B) :
  returned (a <- o ;; Returns (g a)) = returned o.
Proof. destruct o; reflexivity. Qed.

(** X4: [PipelineError.Error()] returns exactly when every slot's text
    does: nil slots and slots without cause never stop it, a slot with a
    cause stops it exactly when that cause's [Error()] does not return. *)
Theorem PipelineError_Error_returns_iff (pe : PipelineError) :
  returned (PipelineError.Error pe) =
    forallb (fun e => match e with
                      | Some {| Cause := Some c |} => returned (method_Error c)
                      | _ => true
                      end) (Errors pe).
Proof.
  rewrite Error_as_sequence, returned_bind_Returns, returned_sequence.
  induction (Errors pe) as [| e rest IH]; [reflexivity |].
  cbn [forallb]. rewrite IH. f_equal. destruct e as [[[c |] tb] |]; reflexivity.
Qed.

(** ** A Flow outside the named three, inside an Exception *)

Lemma Repr_range_crashing_slot `{Collaborators} (es : list (ptr Exception))
    (indent elemIndent : Z) (b : string) (bad : ptr Exception) :
  In bad es -> returned (Exception.Repr bad elemIndent) = false ->
  returned (PipelineError.Repr_range es indent elemIndent b) = false.
Proof.
  intros Hin Hbad. revert b. induction es as [| e rest IH]; intros b.
  - destruct Hin.
  - rewrite Repr_range_cons.
    destruct (separator indent elemIndent) as [sep | c]; [| reflexivity].
    cbn [bind]. destruct Hin as [-> | Hin].
    + destruct (Exception.Repr bad elemIndent); [discriminate | reflexivity].
    + destruct (Exception.Repr e elemIndent) as [r | c]; [| reflexivity].
      cbn [bind]. apply IH. exact Hin.
Qed.

(** X5: an Exception whose cause is a Flow outside the named three cannot
    be shown: its [Error()], [Repr] and [Pprint()] never return, whatever
    room the stack has; and a PipelineError holding it in any slot has
    neither an [Error()] nor a [Repr]. *)
Theorem bad_Flow_cause_never_shown `{Collaborators} (stack : nat) (f : Flow)
    (tb : ptr SourceContext) :
  (3 <= f)%N ->
  let bad := Some {| Cause := Some (Flow.as_error stack f); Traceback := tb |} in
  returned (Exception.Error bad) = false /\
  (forall indent : Z, returned (Exception.Repr bad indent) = false) /\
  returned (Exception.Pprint bad) = false /\
  (forall (pe : PipelineError) (indent : Z),
      In bad (Errors pe) ->
      returned (PipelineError.Error pe) = false /\
      returned (PipelineError.Repr pe indent) = false).
Proof.
  intros Hf bad.
  pose proof (Flow_Error_out_of_range stack f Hf) as Hcrash.
  assert (Herr : returned (Exception.Error bad) = false).
  { unfold bad, Exception.Error.
    cbn [deref bind Cause call_Error Flow.as_error method_Error]. now rewrite Hcrash. }
  assert (Hrepr : forall indent : Z, returned (Exception.Repr bad indent) = false).
  { intros indent. unfold bad, Exception.Repr.
    cbn [deref bind Cause Flow.as_error method_Repr]. unfold Flow.Repr.
    now rewrite Hcrash. }
  split; [exact Herr | split; [exact Hrepr | split]].
  - unfold bad. rewrite Pprint_with_cause. unfold headline.
    cbn [Flow.as_error method_Pprint]. unfold Flow.Pprint. now rewrite Hcrash.
  - intros pe indent Hin. split.
    + rewrite Error_as_sequence, returned_bind_Returns, returned_sequence.
      apply not_true_is_false. intros Hall.
      rewrite forallb_forall in Hall. specialize (Hall bad Hin).
      unfold bad in Hall. cbn [slot_text Cause] in Hall. fold bad in Hall.
      rewrite Herr in Hall. discriminate.
    + unfold PipelineError.Repr.
      pose proof (Repr_range_crashing_slot (Errors pe) indent
                    (wrap_int (indent + Z.of_nat (String.length "?(multi-error ")))
                    "?(multi-error" bad Hin (Hrepr _)) as Hr.
      destruct (PipelineError.Repr_range _ _ _ _); [discriminate | reflexivity].
Qed.

Lemma bad_Flow_cause_never_shown_witness :
  returned (Exception.Error
              (Some {| Cause := Some (Flow.as_error 1000 7%N); Traceback := None |})) = false.
Proof.
  apply (@bad_Flow_cause_never_shown sample 1000 7%N None). discriminate.
Defined.

(** ** A named Flow inside an Exception *)

Lemma Flow_Error_named (stack : nat) (f : Flow) :
  (f < 3)%N -> Flow.Error (S stack) f = Returns (nth (N.to_nat f) flowNames "").
Proof.
  intros Hf. cbn [Flow.Error]. change (N.of_nat (length flowNames)) with 3%N.
  apply N.leb_gt in Hf. now rewrite Hf.
Qed.

(** X6: an Exception whose cause is one of the three named Flows, with
    room for one call, shows the flow's name: [Error()] is the name,
    [Repr] is [?(name)] for every indent, and the first line of
    [Pprint()] carries the name in bold yellow (the Flow's own [Pprint()]),
    not in the red of an ordinary cause. *)
Theorem named_Flow_cause_shown `{Collaborators} (stack : nat) (f : Flow)
    (tb : ptr SourceContext) :
  (f < 3)%N ->
  let name := nth (N.to_nat f) flowNames "" in
  let exc := Some {| Cause := Some (Flow.as_error (S stack) f); Traceback := tb |} in
  Exception.Error exc = Returns name /\
  (forall indent : Z, Exception.Repr exc indent = Returns ("?(" ++ name ++ ")")) /\
  Exception.Pprint exc =
    Returns ("Exception: " ++ ESC ++ "[33;1m" ++ name ++ ESC ++ "[m" ++ LF ++ "Traceback:"
             ++ after_each (LF ++ "  ")
                  (map (fun frame => SourceContext_Pprint frame "    ") (frames tb))).
Proof.
  intros Hf name exc. pose proof (Flow_Error_named stack f Hf) as Hname. fold name in Hname.
  split; [| split].
  - unfold exc, Exception.Error.
    cbn [deref bind Cause call_Error Flow.as_error method_Error]. exact Hname.
  - intros indent. unfold exc, Exception.Repr.
    cbn [deref bind Cause Flow.as_error method_Repr]. unfold Flow.Repr.
    now rewrite Hname.
  - unfold exc. rewrite Pprint_with_cause. unfold headline.
    cbn [Flow.as_error method_Pprint]. unfold Flow.Pprint. rewrite Hname. cbn [bind].
    now rewrite !append_assoc.
Qed.

Lemma named_Flow_cause_shown_witness :
  Exception.Error (Some {| Cause := Some (Flow.as_error 1 Break); Traceback := None |})
    = Returns "break".
Proof.
  apply (@named_Flow_cause_shown sample 0 Break None). reflexivity.
Defined.

(** ** allok *)

(** X7: [allok] of two slices laid end to end is the conjunction of
    [allok] of each. *)
Theorem allok_app (xs ys : list (ptr Exception)) :
  allok (xs ++ ys) = allok xs && allok ys.
Proof.
  induction xs as [| e rest IH]; [reflexivity |].
  cbn [app allok]. rewrite IH. destruct e as [[[c |] tb] |]; reflexivity.
Qed.

Lemma sequence_all_Returns {A B : Type} (b : B) (l : list A) (f : A -> outcome B) :
  (forall a, In a l -> f a = Returns b) ->
  sequence (map f l) = Returns (repeat b (length l)).
Proof.
  induction l as [| a rest IH]; intros Hall; [reflexivity |].
  cbn [map sequence length repeat].
  rewrite (Hall a) by (left; reflexivity). rewrite IH by (intros a' Ha'; apply Hall; now right).
  reflexivity.
Qed.

(** X8: when [allok(es)] holds, [PipelineError.Error()] over [es] returns,
    and reads [<nil>] once per slot, between parentheses and separated by
    [ | ]. *)
Theorem allok_Error_all_nil (es : list (ptr Exception)) :
  allok es = true ->
  PipelineError.Error {| Errors := es |} =
    Returns ("(" ++ String.concat " | " (repeat "<nil>" (length es)) ++ ")").
Proof.
  intros Hok. rewrite Error_as_sequence. cbn [Errors].
  rewrite (sequence_all_Returns "<nil>"); [reflexivity |].
  intros e He. apply allok_Forall in Hok. rewrite Forall_forall in Hok.
  destruct (Hok e He) as [-> | (exc & -> & Hc)]; [reflexivity |].
  cbn [slot_text]. now rewrite Hc.
Qed.

Lemma allok_Error_all_nil_witness :
  PipelineError.Error {| Errors := [OK; None; OK] |} = Returns "(<nil> | <nil> | <nil>)".
Proof.
  apply (allok_Error_all_nil [OK; None; OK]). reflexivity.
Defined.

(** ** What FakeExternalCmdExit fabricates *)

Lemma wrap_int_low_word (z : Z) : wrap_int z mod 2 ^ 16 = z mod 2 ^ 16.
Proof.
  unfold wrap_int.
  pose proof (Z.div_mod (z + 2 ^ 63) (2 ^ 64) ltac:(lia)) as E.
  replace ((z + 2 ^ 63) mod 2 ^ 64 - 2 ^ 63)
    with (z + (- ((z + 2 ^ 63) / 2 ^ 64) * 2 ^ 48) * 2 ^ 16) by lia.
  apply Z_mod_plus_full.
Qed.

Lemma to_uint32_low_word (z : Z) : to_uint32 z mod 2 ^ 16 = z mod 2 ^ 16.
Proof.
  unfold to_uint32.
  pose proof (Z.div_mod z (2 ^ 32) ltac:(lia)) as E.
  replace (z mod 2 ^ 32) with (z + (- (z / 2 ^ 32) * 2 ^ 16) * 2 ^ 16) by lia.
  apply Z_mod_plus_full.
Qed.

(** The second byte of a status fabricated without signal is the exit code
    modulo 256. *)
Lemma Fake_second_byte (name : string) (exit : Z) :
  (WaitStatus (FakeExternalCmdExit name exit 0) / 2 ^ 8) mod 2 ^ 8 = exit mod 2 ^ 8.
Proof.
  pose proof (Fake_low_byte name exit 0 ltac:(lia)) as Hlow.
  assert (Hword : WaitStatus (FakeExternalCmdExit name exit 0) mod 2 ^ 16
                  = exit mod 2 ^ 8 * 2 ^ 8).
  { cbn [FakeExternalCmdExit WaitStatus].
    rewrite to_uint32_low_word, wrap_int_low_word, Z.add_0_r, wrap_int_low_word.
    rewrite Z.shiftl_mul_pow2 by lia.
    change (2 ^ 16) with (2 ^ 8 * 2 ^ 8). apply Z.mul_mod_distr_r; lia. }
  change (2 ^ 16) with (2 ^ 8 * 2 ^ 8) in Hword.
  rewrite Z.rem_mul_r in Hword by lia. lia.
Qed.

(** X9: without signal, [FakeExternalCmdExit] keeps the exit code modulo
    256 only: whatever [exit] is, the status is a normal exit whose code is
    [exit mod 256], and the message reads that code; so an exit code of
    256 reads [exited with 0]. *)
Theorem Fake_exit_code_modulo_256 `{Collaborators} (name : string) (exit : Z) :
  let fake := FakeExternalCmdExit name exit 0 in
  syscall.Exited (WaitStatus fake) = true /\
  syscall.ExitStatus (WaitStatus fake) = exit mod 2 ^ 8 /\
  ExternalCmdExit.Error fake =
    Quote name ++ " exited with " ++ strconv.Itoa (exit mod 2 ^ 8).
Proof.
  intros fake.
  assert (Hex : syscall.Exited (WaitStatus fake) = true).
  { unfold syscall.Exited, syscall.mask, syscall.exited.
    rewrite land_low_byte by lia. unfold fake. rewrite Fake_low_byte by lia. reflexivity. }
  assert (Hcode : syscall.ExitStatus (WaitStatus fake) = exit mod 2 ^ 8).
  { unfold syscall.ExitStatus, syscall.shift. rewrite Hex. cbn [negb].
    rewrite Z.shiftr_div_pow2 by lia. rewrite land_FF. apply Fake_second_byte. }
  split; [exact Hex | split; [exact Hcode |]].
  rewrite Error_exited by exact Hex. now rewrite Hcode.
Qed.

Lemma land_of_Fake (name : string) (exit sig m : Z) :
  0 <= sig < 2 ^ 8 -> 0 <= m < 2 ^ 8 ->
  Z.land (WaitStatus (FakeExternalCmdExit name exit sig)) m = Z.land sig m.
Proof.
  intros Hs Hm. rewrite land_low_byte by exact Hm. now rewrite Fake_low_byte.
Qed.

(** X10: for a signal number that fits a byte, the kind of the status
    that [FakeExternalCmdExit] fabricates is decided by [sig] alone,
    whatever the exit code: it is the kind of the one-byte status [sig].
    It is a stopped status exactly when [sig] is 0x7F, and then the
    fabricated value carries pid 0. *)
Theorem Fake_kind_from_signal (name : string) (exit : Z) (sig : syscall.Signal) :
  0 <= sig < 2 ^ 8 ->
  let fake := FakeExternalCmdExit name exit sig in
  syscall.Exited (WaitStatus fake) = syscall.Exited sig /\
  syscall.Signaled (WaitStatus fake) = syscall.Signaled sig /\
  syscall.CoreDump (WaitStatus fake) = syscall.CoreDump sig /\
  syscall.Signal_of (WaitStatus fake) = syscall.Signal_of sig /\
  syscall.Stopped (WaitStatus fake) = (sig =? 0x7F) /\
  Pid fake = 0.
Proof.
  intros Hs fake.
  assert (Hex : syscall.Exited (WaitStatus fake) = syscall.Exited sig).
  { unfold syscall.Exited, syscall.mask. unfold fake. now rewrite land_of_Fake by lia. }
  assert (Hsig : syscall.Signaled (WaitStatus fake) = syscall.Signaled sig).
  { unfold syscall.Signaled, syscall.mask. unfold fake. now rewrite land_of_Fake by lia. }
  repeat split; try assumption.
  - unfold syscall.CoreDump, syscall.core. rewrite Hsig. unfold fake.
    now rewrite land_of_Fake by lia.
  - unfold syscall.Signal_of, syscall.mask. rewrite Hsig. unfold fake.
    now rewrite land_of_Fake by lia.
  - unfold syscall.Stopped, syscall.stopped. unfold fake.
    rewrite land_of_Fake by lia. rewrite land_FF, Z.mod_small by lia. reflexivity.
Qed.

Lemma Fake_kind_from_signal_witness :
  syscall.Stopped (WaitStatus (FakeExternalCmdExit "vi" 19 0x7F)) = true /\
  syscall.Signaled (WaitStatus (FakeExternalCmdExit "vi" 3 9)) = true.
Proof.
  split.
  - apply (Fake_kind_from_signal "vi" 19 0x7F). lia.
  - transitivity (syscall.Signaled 9); [| reflexivity].
    apply (Fake_kind_from_signal "vi" 3 9). lia.
Defined.

(** ** The status that ExternalCmdExit.Error does not recognise *)

(** X11: a status is none of exited, signaled and stopped exactly when its
    low byte is 0xFF; [ExternalCmdExit.Error] then reads
    [<quoted name> has unknown WaitStatus <status in decimal>]. *)
Theorem unknown_status_iff_low_byte_FF `{Collaborators} (e : ExternalCmdExit) :
  let ws := WaitStatus e in
  ((syscall.Exited ws = false /\ syscall.Signaled ws = false /\ syscall.Stopped ws = false)
   <-> Z.land ws 0xFF = 0xFF) /\
  (Z.land ws 0xFF = 0xFF ->
   ExternalCmdExit.Error e =
     Quote (CmdName e) ++ " has unknown WaitStatus " ++ strconv.Itoa ws).
Proof.
  intros ws.
  assert (Hiff : (syscall.Exited ws = false /\ syscall.Signaled ws = false
                  /\ syscall.Stopped ws = false) <-> Z.land ws 0xFF = 0xFF).
  { unfold syscall.Exited, syscall.Signaled, syscall.Stopped,
      syscall.mask, syscall.stopped, syscall.exited.
    rewrite land_7F, land_FF.
    pose proof (Z.rem_mul_r ws (2 ^ 7) 2 ltac:(lia) ltac:(lia)) as Hsplit.
    change (2 ^ 7 * 2) with (2 ^ 8) in Hsplit.
    pose proof (Z.mod_pos_bound ws (2 ^ 7) ltac:(lia)) as Hlow.
    pose proof (Z.mod_pos_bound (ws / 2 ^ 7) 2 ltac:(lia)) as Hbit.
    destruct (Z.eqb_spec (ws mod 2 ^ 7) 0) as [H0 | H0];
      destruct (Z.eqb_spec (ws mod 2 ^ 7) 127) as [H7 | H7];
      destruct (Z.eqb_spec (ws mod 2 ^ 8) 127) as [H8 | H8];
      cbn [negb andb]; split; try lia; intros (Ha & Hb & Hc); try discriminate; lia. }
  split; [exact Hiff |].
  intros Hlow. apply Hiff in Hlow as (Hex & Hsig & Hstop).
  unfold ExternalCmdExit.Error. fold ws. now rewrite Hex, Hsig, Hstop.
Qed.

(** ** The messages of NewExternalCmdExit *)

Lemma append_inj_l (a b c : string) : a ++ b = a ++ c -> b = c.
Proof.
  induction a as [| ch a IH]; cbn; intros Heq; [exact Heq |].
  injection Heq as Heq. apply IH. exact Heq.
Qed.

Lemma Itoa_zero (n : Z) : strconv.Itoa n = "0" -> n = 0.
Proof.
  unfold strconv.Itoa. intros Heq.
  destruct (Z.eq_dec n 0) as [Hn | Hn]; [exact Hn | exfalso].
  assert (Hread : NilZero.int_of_string (NilZero.string_of_int (Z.to_int n))
                  = Some (Z.to_int n)).
  { apply NilZero.isi; intros Hd; apply (f_equal Z.of_int) in Hd;
      rewrite of_to in Hd; cbn in Hd; contradiction. }
  rewrite Heq in Hread. cbn in Hread. injection Hread as Hread.
  apply Hn. apply to_int_inj. rewrite <- Hread. reflexivity.
Qed.

(** X12: no value that [NewExternalCmdExit] returns has the message
    [<quoted name> exited with 0]: a normal exit it reports has a code
    other than 0, and the other kinds of status read otherwise. *)
Theorem NewExternalCmdExit_never_exited_with_0 `{Collaborators} (name : string)
    (ws : syscall.WaitStatus) (pid : Z) (e : ExternalCmdExit) :
  NewExternalCmdExit name ws pid = Some e ->
  ExternalCmdExit.Error e <> Quote name ++ " exited with 0".
Proof.
  unfold NewExternalCmdExit.
  destruct (syscall.Exited ws && (syscall.ExitStatus ws =? 0)) eqn:Hzero; [discriminate |].
  intros He. injection He as <-.
  unfold ExternalCmdExit.Error. cbn [WaitStatus CmdName Pid].
  destruct (syscall.Exited ws) eqn:Hex.
  - cbn [andb] in Hzero. apply Z.eqb_neq in Hzero.
    intros Heq. apply append_inj_l in Heq.
    apply (append_inj_l " exited with " _ "0") in Heq.
    apply Itoa_zero in Heq. contradiction.
  - destruct (syscall.Signaled ws); [destruct (syscall.CoreDump ws) |];
      [| | destruct (syscall.Stopped ws);
             [destruct (negb (syscall.TrapCause ws =? -1)) |]];
      intros Heq; rewrite ?append_assoc in Heq; apply append_inj_l in Heq;
      cbn [append] in Heq; discriminate.
Qed.

Lemma NewExternalCmdExit_never_exited_with_0_witness :
  @ExternalCmdExit.Error sample {| WaitStatus := 0x100; CmdName := "false"; Pid := 0 |}
    <> "'false' exited with 0".
Proof.
  apply (@NewExternalCmdExit_never_exited_with_0 sample "false" 0x100 77). reflexivity.
Defined.

(** X15: the pid given to [NewExternalCmdExit] matters only for a stopped
    status: for any other status the result is the same whatever the pid,
    and for a stopped status the result is a failure whose message names
    the stop signal and that pid. *)
Theorem NewExternalCmdExit_pid_only_when_stopped `{Collaborators} (name : string)
    (ws : syscall.WaitStatus) :
  (syscall.Stopped ws = false ->
   forall pid pid' : Z, NewExternalCmdExit name ws pid = NewExternalCmdExit name ws pid') /\
  (syscall.Stopped ws = true ->
   forall pid : Z,
   exists e : ExternalCmdExit,
     NewExternalCmdExit name ws pid = Some e /\
     ExternalCmdExit.Error e =
       Quote name ++ " stopped by signal " ++ Signal_String (syscall.StopSignal ws)
       ++ " (pid=" ++ strconv.Itoa pid ++ ")"
       ++ (if syscall.TrapCause ws =? -1 then ""
           else " (trapped " ++ strconv.Itoa (syscall.TrapCause ws) ++ ")")).
Proof.
  split.
  - intros Hstop pid pid'. unfold NewExternalCmdExit. now rewrite Hstop.
  - intros Hstop pid. unfold NewExternalCmdExit.
    rewrite (Stopped_not_Exited _ Hstop), Hstop. cbn [andb negb].
    eexists. split; [reflexivity |].
    unfold ExternalCmdExit.Error. cbn [WaitStatus CmdName Pid].
    rewrite (Stopped_not_Exited _ Hstop), (Stopped_not_Signaled _ Hstop), Hstop.
    unfold fmt.d. destruct (syscall.TrapCause ws =? -1); cbn [negb].
    + now rewrite append_nil_r.
    + now rewrite !append_assoc.
Qed.

(** ** An Exception as the cause of another *)

(** X13: an Exception whose cause is a pointer to another Exception is a
    failure whatever the pointer: [Bool()] is false, while [Error()] and
    [Repr] are those of the inner one. So around [OK] it is false and
    reads [$ok] but has no [Error()], and around a nil pointer neither
    [Error()] nor [Repr] returns. *)
Theorem Exception_as_cause `{Collaborators} (inner : ptr Exception)
    (tb : ptr SourceContext) :
  let around := fun p : ptr Exception =>
                  Some {| Cause := Some (Exception.as_error p); Traceback := tb |} in
  (Exception.Bool (around inner) = Returns false /\
   Exception.Error (around inner) = Exception.Error inner /\
   forall indent : Z, Exception.Repr (around inner) indent = Exception.Repr inner indent) /\
  (Exception.Error (around OK) = Crashes NilDereference /\
   forall indent : Z, Exception.Repr (around OK) indent = Returns "$ok") /\
  (Exception.Error (around None) = Crashes NilDereference /\
   forall indent : Z, Exception.Repr (around None) indent = Crashes NilDereference).
Proof.
  intros around. repeat split.
Qed.

(** * Properties of the test store *)

Lemma has_key_In (m : KeySet) (key : string) : has_key m key = true <-> In key m.
Proof.
  unfold has_key. rewrite existsb_exists. split.
  - intros (k & Hk & Heq). apply String.eqb_eq in Heq. now subst.
  - intros Hin. exists key. split; [exact Hin | apply String.eqb_refl].
Qed.

Lemma Dirs_range_filter {score : Type} (blacklist : KeySet) (stored dirs : list (Dir score)) :
  testStore.Dirs_range blacklist stored dirs =
    (dirs ++ filter (fun d => negb (has_key blacklist (Path d))) stored)%list.
Proof.
  revert dirs. induction stored as [| dir rest IH]; intros dirs; cbn [testStore.Dirs_range filter].
  - now rewrite app_nil_r.
  - rewrite !IH. destruct (has_key blacklist (Path dir)); cbn [negb].
    + reflexivity.
    + now rewrite <- app_assoc.
Qed.

(** X14: [testStore.Dirs(blacklist)] returns the stored dirs whose [Path]
    is not a key of the blacklist, in stored order and as often as they
    are stored, together with [dirsError] unchanged, also when that error
    is not nil; with an empty blacklist it returns every stored dir. *)
Theorem testStore_Dirs_filters {score : Type} (ts : testStore score) (blacklist : KeySet) :
  fst (testStore.Dirs ts blacklist) =
    filter (fun d => negb (has_key blacklist (Path d))) (storedDirs ts) /\
  snd (testStore.Dirs ts blacklist) = dirsError ts /\
  (forall d : Dir score,
      In d (fst (testStore.Dirs ts blacklist)) <->
      In d (storedDirs ts) /\ ~ In (Path d) blacklist) /\
  fst (testStore.Dirs ts []) = storedDirs ts.
Proof.
  unfold testStore.Dirs. cbn [fst snd]. rewrite !Dirs_range_filter. cbn [app].
  split; [reflexivity | split; [reflexivity | split]].
  - intros d. rewrite filter_In, negb_true_iff, <- not_true_iff_false, has_key_In.
    reflexivity.
  - cbn [has_key existsb negb]. induction (storedDirs ts) as [| d rest IH]; cbn [filter].
    + reflexivity.
    + now rewrite IH.
Qed.
